(** * tailwind.config.js: the styling configuration of the site

    The only code of the repository is the CommonJS module
    [tailwind.config.js]: one assignment of an object literal to
    [module.exports].  This file embeds

    - the JavaScript values the literal is made of (booleans, strings,
      arrays, objects, and what [require] returns);
    - the literal itself, as the syntax tree of the expression written in
      the source, and its evaluation against a module resolver (the only
      thing of the environment the module consults);
    - the module object whose [exports] property the assignment
      overwrites, and the loading of the module;
    - the same evaluation in a heap of objects held by reference, where
      an object can be told from an equal one and could be changed;
    - the upload loop of the posts that come with the site.

    The properties proved afterwards are those of the exported value. *)

From Stdlib Require Import String Ascii List Bool.
From stdpp Require Import base option gmap strings list fin_maps.
Import ListNotations.
Local Open Scope string_scope.
Set Warnings "-register-all".

(** ** JavaScript values *)

Module JS.

(** An evaluated value.  An object is a finite map from property name to
    value; [VForeign] is a value handed over by the module resolver, about
    which the configuration knows nothing but its identity. *)
Inductive value : Type :=
  | VBool (b : bool)
  | VStr (s : string)
  | VArr (items : list value)
  | VObj (props : gmap string value)
  | VForeign (id : string).

(** The expressions occurring in the source: literals, array and object
    literals, and a call of [require] on a string literal.  The properties
    of an object literal are kept in the order they are written. *)
Inductive expr : Type :=
  | EBool (b : bool)
  | EStr (s : string)
  | EArr (items : list expr)
  | EObj (props : list (string * expr))
  | ERequire (name : string).

(** The module resolver: [require(name)] either returns the exports of the
    named package or throws ([None]). *)
Definition resolver : Type := string → option value.

Section Eval.
Variable resolve : resolver.

(** Evaluation, left to right.  An exception in a sub-expression aborts
    the whole evaluation.  In an object literal a property written twice
    keeps its last value. *)
Fixpoint eval (e : expr) : option value :=
  match e with
  | EBool b => Some (VBool b)
  | EStr s => Some (VStr s)
  | EArr items =>
      VArr <$>
        (fix eval_items (es : list expr) : option (list value) :=
           match es with
           | [] => Some []
           | e' :: es' =>
               match eval e' with
               | Some v => cons v <$> eval_items es'
               | None => None
               end
           end) items
  | EObj props =>
      VObj <$>
        (fix eval_props (ps : list (string * expr)) (acc : gmap string value)
           : option (gmap string value) :=
           match ps with
           | [] => Some acc
           | (k, e') :: ps' =>
               match eval e' with
               | Some v => eval_props ps' (<[k := v]> acc)
               | None => None
               end
           end) props ∅
  | ERequire name => resolve name
  end.
End Eval.

(** The package names an expression passes to [require]. *)
Fixpoint requires (e : expr) : list string :=
  match e with
  | EBool _ | EStr _ => []
  | EArr items => concat (map requires items)
  | EObj props => concat (map (λ kv : string * expr, requires kv.2) props)
  | ERequire name => [name]
  end.

(** Own-property lookup.  [get k v] is the own property [k] of an object
    built by an object literal, and [at_index i v] the element [i] of an
    array built by an array literal.  [None] says no more than that [v] is
    no such object with an own property [k] (no such array with an element
    [i]); it is not the result of the JavaScript access [o.k], which goes
    on to the prototype of the object, finds [length] and the indices on
    arrays and strings, and throws on [undefined].  The two agree where
    [k] is an own property of an object, and [i] an index within the
    array. *)
Definition get (k : string) (v : value) : option value :=
  match v with
  | VObj props => props !! k
  | _ => None
  end.

Definition at_index (i : nat) (v : value) : option value :=
  match v with
  | VArr items => items !! i
  | _ => None
  end.

(** A chain of own properties, [o.k1.k2...], as far as each step is an
    own property of an object; [None] as soon as one is not (where the
    JavaScript access would look further, give [undefined], or throw). *)
Fixpoint get_path (ks : list string) (v : value) : option value :=
  match ks with
  | [] => Some v
  | k :: ks' =>
      match get k v with
      | Some v' => get_path ks' v'
      | None => None
      end
  end.

(** Checks on values: a string of a given shape, and an object all of
    whose property values pass a check. *)
Definition str_satisfies (P : string → bool) (v : value) : bool :=
  match v with
  | VStr s => P s
  | _ => false
  end.

Definition props_all (P : value → bool) (v : value) : bool :=
  match v with
  | VObj props => forallb (λ kv : string * value, P kv.2) (map_to_list props)
  | _ => false
  end.

(** The own property names of an object. *)
Definition keys (v : value) : gset string :=
  match v with
  | VObj props => dom props
  | _ => ∅
  end.

End JS.

(** ** The module *)

Module Config.
Import JS.

(** The package named in the source's only [require] call. *)
Definition typography : string := "@tailwindcss/typography".

(** Two installations, to run the module in: one with the typography
    package alone, one with a second package next to it. *)
Definition installed_plugin : value := VForeign "typography".

Definition typography_only : resolver := λ name,
  if decide (name = typography) then Some installed_plugin else None.

Definition with_autoprefixer : resolver := λ name,
  if decide (name = "autoprefixer") then Some (VForeign "autoprefixer")
  else typography_only name.

(** The object literal on the right of [module.exports =], as written. *)
Definition config_literal : expr :=
  EObj [
    ("purge", EArr [
      EStr "./_includes/**/*.html";
      EStr "./_layouts/**/*.html";
      EStr "./_posts/*.md";
      EStr "./*.html"
    ]);
    ("darkMode", EBool false);
    ("theme", EObj [
      ("colors", EObj [
        ("curiosity", EObj [
          ("lightest", EStr "#EFFFCD");
          ("light", EStr "#DCE9BE");
          ("dirt", EStr "#555152");
          ("magenta", EStr "#2E2633");
          ("red", EStr "#99173C")
        ])
      ]);
      ("minWidth", EObj [
        ("full", EStr "640px")
      ])
    ]);
    ("variants", EObj []);
    ("plugins", EArr [ERequire typography])
  ].

(** The module object a CommonJS file is run with; the file sees it as
    [module], and whoever requires the file receives [module.exports]. *)
Record module_obj : Type := { exports : value }.

(** Before the body runs, [module.exports] is an empty object. *)
Definition fresh_module : module_obj := {| exports := VObj ∅ |}.

(** The statements of a module body.  The source has one form only:
    [module.exports = e;]. *)
Inductive stmt : Type :=
  | SAssignExports (e : expr).

Definition tailwind_config_js : list stmt :=
  [SAssignExports config_literal].

Section Run.
Variable resolve : resolver.

(** One statement: evaluate the right-hand side, then store it. *)
Definition exec (s : stmt) (m : module_obj) : option module_obj :=
  match s with
  | SAssignExports e =>
      match eval resolve e with
      | Some v => Some {| exports := v |}
      | None => None
      end
  end.

(** A module body, statement by statement; an exception stops it. *)
Fixpoint run (body : list stmt) (m : module_obj) : option module_obj :=
  match body with
  | [] => Some m
  | s :: body' =>
      match exec s m with
      | Some m' => run body' m'
      | None => None
      end
  end.

(** Loading [tailwind.config.js]: run its body on a fresh module object
    and hand out the exports. *)
Definition load : option value :=
  exports <$> run tailwind_config_js fresh_module.
End Run.

End Config.

(** ** The shapes of the strings in the configuration *)

Module Lexical.

Definition is_digit (c : ascii) : bool :=
  Nat.leb 48 (nat_of_ascii c) && Nat.leb (nat_of_ascii c) 57.

Definition is_hex_digit (c : ascii) : bool :=
  is_digit c
  || (Nat.leb 65 (nat_of_ascii c) && Nat.leb (nat_of_ascii c) 70)
  || (Nat.leb 97 (nat_of_ascii c) && Nat.leb (nat_of_ascii c) 102).

(** A hex colour: the character [#], then exactly six hexadecimal digits. *)
Definition is_hex_color (s : string) : bool :=
  match s with
  | String "#" digits =>
      Nat.eqb (String.length digits) 6
      && forallb is_hex_digit (list_ascii_of_string digits)
  | _ => false
  end.

(** The length units of CSS, absolute and relative. *)
Definition css_length_units : list string :=
  ["px"; "cm"; "mm"; "Q"; "in"; "pc"; "pt";
   "em"; "rem"; "ex"; "ch"; "vw"; "vh"; "vmin"; "vmax"].

Fixpoint drop_digits (s : string) : string :=
  match s with
  | String c s' => if is_digit c then drop_digits s' else s
  | EmptyString => s
  end.

(** A CSS length: a non-empty run of decimal digits, then a length unit. *)
Definition is_css_length (s : string) : bool :=
  match s with
  | String c _ => is_digit c && bool_decide (drop_digits s ∈ css_length_units)
  | EmptyString => false
  end.

(** [ends_with suf s]: [s] is some stem followed by [suf]. *)
Fixpoint ends_with (suf s : string) : bool :=
  if String.eqb s suf then true
  else match s with
       | String _ s' => ends_with suf s'
       | EmptyString => false
       end.

Definition has_suffix (suf s : string) : Prop := ∃ stem, s = stem +:+ suf.

(** [contains c s]: the character [c] occurs in [s]. *)
Fixpoint contains (c : ascii) (s : string) : bool :=
  match s with
  | String c' s' => Ascii.eqb c c' || contains c s'
  | EmptyString => false
  end.

(** A glob pattern proper: a path with at least one [*] wildcard. *)
Definition is_glob (s : string) : bool := contains "*" s.

End Lexical.

(** ** The configuration as the interface description words it *)

Module Reference.
Import JS.

(** The design tokens: colour palettes, each a map from shade name to
    colour, and the minimum-width tokens. *)
Record theme_tokens : Type := {
  colors : gmap string (gmap string string);
  minWidth : gmap string string
}.

Record config : Type := {
  purge : list string;
  darkMode : bool;
  theme : theme_tokens;
  variants : gmap string (list string);
  plugins : list value
}.

(** The expected configuration, for a given typography plugin. *)
Definition expected (typography_plugin : value) : config := {|
  purge := ["./_includes/**/*.html"; "./_layouts/**/*.html";
            "./_posts/*.md"; "./*.html"];
  darkMode := false;
  theme := {|
    colors := {[ "curiosity" :=
                 {[ "lightest" := "#EFFFCD"; "light" := "#DCE9BE";
                    "dirt" := "#555152"; "magenta" := "#2E2633";
                    "red" := "#99173C" ]} ]};
    minWidth := {[ "full" := "640px" ]}
  |};
  variants := ∅;
  plugins := [typography_plugin]
|}.

(** The JavaScript value of a typed configuration, field for field. *)
Definition strings_value (m : gmap string string) : value :=
  VObj (VStr <$> m).

Definition theme_value (t : theme_tokens) : value :=
  VObj {[ "colors" := VObj (strings_value <$> colors t);
          "minWidth" := strings_value (minWidth t) ]}.

Definition to_value (c : config) : value :=
  VObj {[ "purge" := VArr (VStr <$> purge c);
          "darkMode" := VBool (darkMode c);
          "theme" := theme_value (theme c);
          "variants" := VObj ((λ vs : list string, VArr (VStr <$> vs)) <$> variants c);
          "plugins" := VArr (plugins c) ]}.

End Reference.

(** ** The objects of the configuration in the heap *)

Module Heap.
Import JS Config.

(** The loops inside [eval], under a name. *)
Fixpoint eval_items (resolve : resolver) (es : list expr) : option (list value) :=
  match es with
  | [] => Some []
  | e :: es' =>
      match eval resolve e with
      | Some v => cons v <$> eval_items resolve es'
      | None => None
      end
  end.

Fixpoint eval_props (resolve : resolver) (ps : list (string * expr))
    (acc : gmap string value) : option (gmap string value) :=
  match ps with
  | [] => Some acc
  | (k, e) :: ps' =>
      match eval resolve e with
      | Some v => eval_props resolve ps' (<[k := v]> acc)
      | None => None
      end
  end.

(** Objects and arrays live in the heap and are handed around by
    reference; an assignment to a property changes the object for everyone
    who holds the reference.  [HExt] is a value from outside the module,
    such as what [require] returns. *)
Definition addr : Type := positive.

Inductive hvalue : Type :=
  | HBool (b : bool)
  | HStr (s : string)
  | HRef (a : addr)
  | HExt (v : value).

Inductive cell : Type :=
  | CObj (props : gmap string hvalue)
  | CArr (items : list hvalue).

Abbreviation heap := (gmap addr cell).

(** A new object, at an address that is not in use. *)
Definition alloc (c : cell) (h : heap) : addr * heap :=
  let a := fresh (dom h) in (a, <[a := c]> h).

(** [o.k = v]: the one operation that changes an object that exists. *)
Definition set_prop (a : addr) (k : string) (v : hvalue) (h : heap) : option heap :=
  match h !! a with
  | Some (CObj props) => Some (<[a := CObj (<[k := v]> props)]> h)
  | _ => None
  end.

(** The own property [k] of the object at [a]. *)
Definition get_prop (a : addr) (k : string) (h : heap) : option hvalue :=
  match h !! a with
  | Some (CObj props) => props !! k
  | _ => None
  end.

(** The items of an array literal and the properties of an object literal,
    left to right, each evaluated in the heap the one before has left. *)
Definition heval_items (ev : expr → heap → option (hvalue * heap)) :=
  fix go (es : list expr) (h : heap) : option (list hvalue * heap) :=
    match es with
    | [] => Some ([], h)
    | e :: es' =>
        match ev e h with
        | Some (v, h1) =>
            match go es' h1 with
            | Some (vs, h2) => Some (v :: vs, h2)
            | None => None
            end
        | None => None
        end
    end.

Definition heval_props (ev : expr → heap → option (hvalue * heap)) :=
  fix go (ps : list (string * expr)) (acc : gmap string hvalue) (h : heap)
      : option (gmap string hvalue * heap) :=
    match ps with
    | [] => Some (acc, h)
    | (k, e) :: ps' =>
        match ev e h with
        | Some (v, h1) => go ps' (<[k := v]> acc) h1
        | None => None
        end
    end.

Section HeapEval.
Variable resolve : resolver.

(** Evaluation in the heap.  A literal makes a new object; nothing can
    refer to that object before the literal is complete, so it enters the
    heap with its parts in place. *)
Fixpoint heval (e : expr) (h : heap) : option (hvalue * heap) :=
  match e with
  | EBool b => Some (HBool b, h)
  | EStr s => Some (HStr s, h)
  | EArr items =>
      match heval_items heval items h with
      | Some (vs, h1) => let (a, h2) := alloc (CArr vs) h1 in Some (HRef a, h2)
      | None => None
      end
  | EObj props =>
      match heval_props heval props ∅ h with
      | Some (ps, h1) => let (a, h2) := alloc (CObj ps) h1 in Some (HRef a, h2)
      | None => None
      end
  | ERequire name =>
      match resolve name with
      | Some v => Some (HExt v, h)
      | None => None
      end
  end.

(** [module.exports = e;] on the module object at [m]. *)
Definition hexec (s : stmt) (m : addr) (h : heap) : option heap :=
  match s with
  | SAssignExports e =>
      match heval e h with
      | Some (v, h1) => set_prop m "exports" v h1
      | None => None
      end
  end.

Fixpoint hrun (body : list stmt) (m : addr) (h : heap) : option heap :=
  match body with
  | [] => Some h
  | s :: body' =>
      match hexec s m h with
      | Some h1 => hrun body' m h1
      | None => None
      end
  end.

(** The module object of a file about to run: [{ exports: {} }]. *)
Definition new_module (h : heap) : addr * heap :=
  let (e, h1) := alloc (CObj ∅) h in
  alloc (CObj {[ "exports" := HRef e ]}) h1.

(** One evaluation of [tailwind.config.js] in the heap [h]: a module
    object is made, the body runs on it, and [module.exports] is handed
    out, with the heap the evaluation leaves. *)
Definition hload (h : heap) : option (hvalue * heap) :=
  let (m, h0) := new_module h in
  match hrun tailwind_config_js m h0 with
  | Some h1 =>
      match get_prop m "exports" h1 with
      | Some v => Some (v, h1)
      | None => None
      end
  | None => None
  end.
End HeapEval.

(** Reading a value out of the heap, references followed down to depth
    [n]: what a consumer sees who reads the whole of it.  [None] where a
    reference leads nowhere or deeper than [n]. *)
Fixpoint reify (n : nat) (h : heap) (v : hvalue) : option value :=
  match v with
  | HBool b => Some (VBool b)
  | HStr s => Some (VStr s)
  | HExt x => Some x
  | HRef a =>
      match n with
      | 0 => None
      | S n' =>
          match h !! a with
          | Some (CObj props) =>
              let read := reify n' h <$> props in
              if decide (map_Forall (λ _ o, is_Some o) read)
              then Some (VObj (omap id read)) else None
          | Some (CArr items) => VArr <$> mapM (reify n' h) items
          | None => None
          end
      end
  end.

(** How deep the literals of an expression nest. *)
Fixpoint depth (e : expr) : nat :=
  match e with
  | EArr items => S (foldr (λ e' d, Nat.max (depth e') d) 0 items)
  | EObj props =>
      S (foldr (λ (kv : string * expr) d, Nat.max (depth kv.2) d) 0 props)
  | _ => 0
  end.

End Heap.

(** ** The upload loop of the posts *)

Module Posts.




End Posts.

(** * Properties *)

(** ** Facts about the evaluator *)

Module JSFacts.
Import JS.

(** Induction over expressions that reaches into array items and object
    properties. *)
Section ExprInd.
Variable P : expr → Prop.
Hypothesis HBool : ∀ b, P (EBool b).
Hypothesis HStr : ∀ s, P (EStr s).
Hypothesis HArr : ∀ items, Forall P items → P (EArr items).
Hypothesis HObj : ∀ props, Forall (λ kv, P kv.2) props → P (EObj props).
Hypothesis HRequire : ∀ name, P (ERequire name).

Fixpoint expr_nested_ind (e : expr) : P e :=
  match e with
  | EBool b => HBool b
  | EStr s => HStr s
  | EArr items =>
      HArr items
        ((fix go (es : list expr) : Forall P es :=
            match es with
            | [] => Forall_nil_2 P
            | e' :: es' => Forall_cons_2 P e' es' (expr_nested_ind e') (go es')
            end) items)
  | EObj props =>
      HObj props
        ((fix go (ps : list (string * expr)) : Forall (λ kv, P kv.2) ps :=
            match ps with
            | [] => Forall_nil_2 _
            | kv :: ps' =>
                Forall_cons_2 (λ kv, P kv.2) kv ps' (expr_nested_ind kv.2) (go ps')
            end) props)
  | ERequire name => HRequire name
  end.
End ExprInd.

Lemma eval_ext (r1 r2 : resolver) (e : expr) :
  (∀ name, name ∈ requires e → r1 name = r2 name) →
  eval r1 e = eval r2 e.
Proof.
  induction e as [b|s|items IH|props IH|name] using expr_nested_ind;
    intros Hagree; simpl in *.
  - reflexivity.
  - reflexivity.
  - f_equal.
    induction IH as [|e es He _ IHes]; simpl in *; [reflexivity|].
    rewrite He by (intros n Hn; apply Hagree, elem_of_app; by left).
    rewrite IHes by (intros n Hn; apply Hagree, elem_of_app; by right).
    reflexivity.
  - f_equal. generalize (∅ : gmap string value).
    induction IH as [|[k e] ps He _ IHps]; intros acc; simpl in *; [reflexivity|].
    rewrite He by (intros n Hn; apply Hagree, elem_of_app; by left).
    destruct (eval r2 e); [|reflexivity].
    apply IHps. intros n Hn; apply Hagree, elem_of_app; by right.
  - apply Hagree, list_elem_of_singleton. reflexivity.
Qed.

(** If every required package resolves, evaluation returns a value. *)
Lemma eval_total (r : resolver) (e : expr) :
  (∀ name, name ∈ requires e → is_Some (r name)) →
  is_Some (eval r e).
Proof.
  induction e as [b|s|items IH|props IH|name] using expr_nested_ind;
    intros Hres; simpl in *.
  - eauto.
  - eauto.
  - apply fmap_is_Some.
    induction IH as [|e es He _ IHes]; simpl in *; [eauto|].
    destruct He as [v ->]; [intros n Hn; apply Hres, elem_of_app; by left|].
    apply fmap_is_Some, IHes. intros n Hn; apply Hres, elem_of_app; by right.
  - apply fmap_is_Some. generalize (∅ : gmap string value).
    induction IH as [|[k e] ps He _ IHps]; intros acc; simpl in *; [eauto|].
    destruct He as [v ->]; [intros n Hn; apply Hres, elem_of_app; by left|].
    apply IHps. intros n Hn; apply Hres, elem_of_app; by right.
  - apply Hres, list_elem_of_singleton. reflexivity.
Qed.

(** A failing [require] anywhere in the expression makes it throw. *)
Lemma eval_throws (r : resolver) (e : expr) (name : string) :
  name ∈ requires e → r name = None → eval r e = None.
Proof.
  induction e as [b|s|items IH|props IH|n] using expr_nested_ind;
    intros Hin Hnone; simpl in *.
  - by apply elem_of_nil in Hin.
  - by apply elem_of_nil in Hin.
  - apply fmap_None.
    induction IH as [|e es He _ IHes]; simpl in *;
      [by apply elem_of_nil in Hin|].
    apply elem_of_app in Hin as [Hin|Hin].
    + by rewrite He.
    + destruct (eval r e); [|done]. apply fmap_None. by apply IHes.
  - apply fmap_None. generalize (∅ : gmap string value).
    induction IH as [|[k e] ps He _ IHps]; intros acc; simpl in *;
      [by apply elem_of_nil in Hin|].
    apply elem_of_app in Hin as [Hin|Hin].
    + by rewrite He.
    + destruct (eval r e); [|done]. by apply IHps.
  - apply list_elem_of_singleton in Hin as ->. done.
Qed.

Lemma str_satisfies_spec (P : string → bool) (v : value) :
  str_satisfies P v = true ↔ ∃ s, v = VStr s ∧ P s = true.
Proof.
  destruct v; simpl; split; try done; try (by intros (? & ? & ?)).
  - intros HP. eauto.
  - intros (s' & [= ->] & HP). exact HP.
Qed.

Lemma props_all_spec (P : value → bool) (v : value) :
  props_all P v = true ↔
  ∃ props, v = VObj props ∧ ∀ k x, props !! k = Some x → P x = true.
Proof.
  destruct v as [| | |props|]; simpl; split; try done;
    try (by intros (? & ? & ?)).
  - intros Hall. exists props. split; [reflexivity|].
    intros k x Hkx. rewrite forallb_forall in Hall.
    apply (Hall (k, x)), list_elem_of_In, elem_of_map_to_list, Hkx.
  - intros (props' & [= <-] & Hall). apply forallb_forall.
    intros [k x] Hin. apply (Hall k), elem_of_map_to_list, list_elem_of_In, Hin.
Qed.

End JSFacts.

(** ** Facts about the string shapes *)

Module LexicalFacts.
Import Lexical.

Lemma ends_with_spec (suf s : string) :
  ends_with suf s = true ↔ has_suffix suf s.
Proof.
  unfold has_suffix. induction s as [|c s IH]; cbn [ends_with].
  - destruct (String.eqb_spec "" suf) as [<-|Hne]; simpl.
    + split; [by exists ""|done].
    + split; [done|]. intros [[|c stem] Hstem]; [by destruct Hne|done].
  - destruct (String.eqb_spec (String c s) suf) as [<-|Hne]; simpl.
    + split; [by exists ""|done].
    + rewrite IH. split.
      * intros [stem ->]. by exists (String c stem).
      * intros [[|c' stem] Hstem]; [by destruct Hne|].
        injection Hstem as -> ->. by exists stem.
Qed.

Lemma contains_spec (c : ascii) (s : string) :
  contains c s = true ↔ c ∈ list_ascii_of_string s.
Proof.
  induction s as [|c' s IH]; simpl.
  - split; [done|]. by intros ?%elem_of_nil.
  - rewrite orb_true_iff, IH, elem_of_cons, Ascii.eqb_eq. reflexivity.
Qed.

End LexicalFacts.

(** ** The exported configuration *)

Module ConfigFacts.
Import JS JSFacts Config Lexical LexicalFacts.

(** Loading is the evaluation of the literal: the assignment replaces
    whatever [module.exports] held. *)
Lemma run_exports (resolve : resolver) (m : module_obj) :
  exports <$> run resolve tailwind_config_js m = eval resolve config_literal.
Proof.
  unfold tailwind_config_js. cbn [run exec].
  destruct (eval resolve config_literal); reflexivity.
Qed.

Lemma load_eval (resolve : resolver) :
  load resolve = eval resolve config_literal.
Proof. apply run_exports. Qed.

(** The module requires the typography package and nothing else. *)
Lemma requires_config : requires config_literal = [typography].
Proof. reflexivity. Qed.

(** Without the package the module throws; with it, it loads. *)
Lemma load_throws (resolve : resolver) :
  resolve typography = None → load resolve = None.
Proof.
  intros Hnone. rewrite load_eval.
  apply (eval_throws resolve config_literal typography); [|exact Hnone].
  rewrite requires_config. apply list_elem_of_singleton. reflexivity.
Qed.

Lemma load_returns (resolve : resolver) :
  is_Some (resolve typography) → is_Some (load resolve).
Proof.
  intros Hsome. rewrite load_eval. apply eval_total.
  intros name. rewrite requires_config.
  intros ->%list_elem_of_singleton. exact Hsome.
Qed.

(** Name the object found under [path] in the configuration loaded with
    [plugin] as the typography package. *)
Ltac exists_loaded plugin path :=
  let o := eval vm_compute in
    (eval (λ _, Some plugin) config_literal ≫= get_path path) in
  lazymatch o with
  | Some (VObj ?props) => exists props
  end.

Section Loaded.
Variable resolve : resolver.
Variable plugin : value.
Hypothesis resolved : resolve typography = Some plugin.

(** All that loading asks of the installation is the typography
    package: any resolver that answers [plugin] for it will do. *)
Lemma load_resolved :
  load resolve = eval (λ _, Some plugin) config_literal.
Proof.
  rewrite load_eval. apply eval_ext. intros name.
  rewrite requires_config. intros ->%list_elem_of_singleton.
  exact resolved.
Qed.

Ltac loaded := rewrite load_resolved; vm_compute; reflexivity.

(** C1: loading the module yields the expected configuration: the
    exported value is the value of the reference record (four purge
    patterns, [darkMode] false, the curiosity palette and the [full]
    minimum width, no variants, the one plugin), field for field. *)
Theorem exports_match_reference :
  load resolve = Some (Reference.to_value (Reference.expected plugin)).
Proof. loaded. Qed.

(** C2: [purge] is the array of the four glob patterns, in the order
    they are written, and each of them is a string with a wildcard. *)
Theorem purge_ordered_globs :
  ∃ patterns,
    load resolve ≫= get "purge" = Some (VArr (VStr <$> patterns))
    ∧ patterns = ["./_includes/**/*.html"; "./_layouts/**/*.html";
                  "./_posts/*.md"; "./*.html"]
    ∧ Forall (λ p, is_glob p = true) patterns.
Proof.
  exists ["./_includes/**/*.html"; "./_layouts/**/*.html";
          "./_posts/*.md"; "./*.html"].
  split; [loaded|]. split; [reflexivity|].
  repeat constructor.
Qed.

(** C4: [darkMode] is the boolean [false]. *)
Theorem darkMode_false :
  load resolve ≫= get "darkMode" = Some (VBool false).
Proof. loaded. Qed.

(** C6: [variants] is the empty object: it has no own property, so no
    variant is overridden for any utility. *)
Theorem variants_empty :
  load resolve ≫= get "variants" = Some (VObj ∅)
  ∧ keys <$> (load resolve ≫= get "variants") = Some ∅.
Proof.
  split; loaded.
Qed.

(** C7: [plugins] is an array of length one, and its single element is
    what [require] returned for the typography package. *)
Theorem plugins_single_typography :
  ∃ items,
    load resolve ≫= get "plugins" = Some (VArr items)
    ∧ length items = 1
    ∧ Some <$> items = [resolve typography].
Proof.
  exists [plugin]. split; [loaded|]. split; [reflexivity|].
  rewrite resolved. reflexivity.
Qed.

(** C3: [theme.colors] maps palette names to objects that map shade
    names to strings, and each of these strings is [#] followed by six
    hexadecimal digits. *)
Theorem colors_are_hex :
  ∃ palettes,
    load resolve ≫= get_path ["theme"; "colors"] = Some (VObj palettes)
    ∧ ∀ palette pv, palettes !! palette = Some pv →
        ∃ shades, pv = VObj shades
          ∧ ∀ shade sv, shades !! shade = Some sv →
              ∃ hex, sv = VStr hex ∧ is_hex_color hex = true.
Proof.
  exists_loaded plugin ["theme"; "colors"]. split; [loaded|].
  match goal with |- ∀ palette pv, ?m !! _ = _ → _ =>
    assert (Hall : props_all (props_all (str_satisfies is_hex_color)) (VObj m) = true)
      by (vm_compute; reflexivity)
  end.
  apply props_all_spec in Hall as (palettes & [= <-] & Hall).
  intros palette pv Hpv.
  apply Hall, props_all_spec in Hpv as (shades & -> & Hshades).
  exists shades. split; [reflexivity|].
  intros shade sv Hsv. apply str_satisfies_spec, (Hshades shade), Hsv.
Qed.

(** C5: [theme.minWidth] maps token names to CSS lengths: every value
    is a string made of a number and a length unit; the one token is
    [full], and it is [640px]. *)
Theorem minWidth_css_lengths :
  ∃ tokens,
    load resolve ≫= get_path ["theme"; "minWidth"] = Some (VObj tokens)
    ∧ (∀ token v, tokens !! token = Some v →
         ∃ len, v = VStr len ∧ is_css_length len = true)
    ∧ dom tokens = {[ "full" ]}
    ∧ tokens !! "full" = Some (VStr "640px").
Proof.
  exists_loaded plugin ["theme"; "minWidth"]. split; [loaded|].
  split; [|split; vm_compute; reflexivity].
  match goal with |- ∀ token v, ?m !! _ = _ → _ =>
    assert (Hall : props_all (str_satisfies is_css_length) (VObj m) = true)
      by (vm_compute; reflexivity)
  end.
  apply props_all_spec in Hall as (tokens & [= <-] & Hall).
  intros token v Hv. apply str_satisfies_spec, (Hall token), Hv.
Qed.

(** C9: [theme.colors] has the one palette [curiosity], whose shades are
    exactly [lightest], [light], [dirt], [magenta] and [red]; the
    palette sits directly under [theme], next to [minWidth] only. *)
Theorem single_palette_five_shades :
  ∃ palettes shades,
    load resolve ≫= get_path ["theme"; "colors"] = Some (VObj palettes)
    ∧ dom palettes = {[ "curiosity" ]}
    ∧ palettes !! "curiosity" = Some (VObj shades)
    ∧ dom shades = {[ "lightest"; "light"; "dirt"; "magenta"; "red" ]}
    ∧ size shades = 5
    ∧ keys <$> (load resolve ≫= get "theme") = Some {[ "colors"; "minWidth" ]}.
Proof.
  exists_loaded plugin ["theme"; "colors"].
  exists_loaded plugin ["theme"; "colors"; "curiosity"].
  split; [loaded|]. split; [vm_compute; reflexivity|].
  split; [vm_compute; reflexivity|]. split; [vm_compute; reflexivity|].
  split; [vm_compute; reflexivity|]. loaded.
Qed.

(** C10: every purge pattern ends in [.html] or [.md]; exactly one
    ends in [.md], and it names files directly inside [./_posts/]. *)
Theorem purge_html_and_posts_md :
  ∃ patterns,
    load resolve ≫= get "purge" = Some (VArr (VStr <$> patterns))
    ∧ Forall (λ p, has_suffix ".html" p ∨ has_suffix ".md" p) patterns
    ∧ filter (λ p, ends_with ".md" p = true) patterns = ["./_posts/*.md"]
    ∧ ∀ p, p ∈ patterns → has_suffix ".md" p →
        ∃ file, p = "./_posts/" +:+ file ∧ contains "/" file = false.
Proof.
  exists ["./_includes/**/*.html"; "./_layouts/**/*.html";
          "./_posts/*.md"; "./*.html"].
  split; [loaded|]. split; [|split; [vm_compute; reflexivity|]].
  - repeat (apply Forall_cons_2;
              [first [ left; apply ends_with_spec; vm_compute; reflexivity
                     | right; apply ends_with_spec; vm_compute; reflexivity ]|]).
    apply Forall_nil_2.
  - intros p Hp Hmd. apply ends_with_spec in Hmd.
    repeat (apply elem_of_cons in Hp as [->|Hp]);
      try (vm_compute in Hmd; discriminate Hmd).
    + exists "*.md". split; reflexivity.
    + by apply elem_of_nil in Hp.
Qed.

End Loaded.

(** *** The theorems at a concrete installation *)

Lemma exports_match_reference_witness :
  typography_only typography = Some installed_plugin
  ∧ load typography_only
    = Some (Reference.to_value (Reference.expected installed_plugin)).
Proof.
  split; [reflexivity|].
  apply (exports_match_reference typography_only installed_plugin).
  reflexivity.
Defined.

Lemma purge_ordered_globs_witness :
  typography_only typography = Some installed_plugin
  ∧ ∃ patterns,
      load typography_only ≫= get "purge" = Some (VArr (VStr <$> patterns))
      ∧ patterns = ["./_includes/**/*.html"; "./_layouts/**/*.html";
                    "./_posts/*.md"; "./*.html"]
      ∧ Forall (λ p, is_glob p = true) patterns.
Proof.
  split; [reflexivity|].
  apply (purge_ordered_globs typography_only installed_plugin).
  reflexivity.
Defined.

Lemma colors_are_hex_witness :
  typography_only typography = Some installed_plugin
  ∧ ∃ palettes,
      load typography_only ≫= get_path ["theme"; "colors"]
      = Some (VObj palettes)
      ∧ ∀ palette pv, palettes !! palette = Some pv →
          ∃ shades, pv = VObj shades
            ∧ ∀ shade sv, shades !! shade = Some sv →
                ∃ hex, sv = VStr hex ∧ is_hex_color hex = true.
Proof.
  split; [reflexivity|].
  apply (colors_are_hex typography_only installed_plugin).
  reflexivity.
Defined.

Lemma darkMode_false_witness :
  typography_only typography = Some installed_plugin
  ∧ load typography_only ≫= get "darkMode" = Some (VBool false).
Proof.
  split; [reflexivity|].
  apply (darkMode_false typography_only installed_plugin).
  reflexivity.
Defined.

Lemma minWidth_css_lengths_witness :
  typography_only typography = Some installed_plugin
  ∧ ∃ tokens,
      load typography_only ≫= get_path ["theme"; "minWidth"]
      = Some (VObj tokens)
      ∧ (∀ token v, tokens !! token = Some v →
           ∃ len, v = VStr len ∧ is_css_length len = true)
      ∧ dom tokens = {[ "full" ]}
      ∧ tokens !! "full" = Some (VStr "640px").
Proof.
  split; [reflexivity|].
  apply (minWidth_css_lengths typography_only installed_plugin).
  reflexivity.
Defined.

Lemma variants_empty_witness :
  typography_only typography = Some installed_plugin
  ∧ load typography_only ≫= get "variants" = Some (VObj ∅)
  ∧ keys <$> (load typography_only ≫= get "variants") = Some ∅.
Proof.
  split; [reflexivity|].
  apply (variants_empty typography_only installed_plugin).
  reflexivity.
Defined.

Lemma plugins_single_typography_witness :
  typography_only typography = Some installed_plugin
  ∧ ∃ items,
      load typography_only ≫= get "plugins" = Some (VArr items)
      ∧ length items = 1
      ∧ Some <$> items = [typography_only typography].
Proof.
  split; [reflexivity|].
  apply (plugins_single_typography typography_only installed_plugin).
  reflexivity.
Defined.

Lemma single_palette_five_shades_witness :
  typography_only typography = Some installed_plugin
  ∧ ∃ palettes shades,
      load typography_only ≫= get_path ["theme"; "colors"]
      = Some (VObj palettes)
      ∧ dom palettes = {[ "curiosity" ]}
      ∧ palettes !! "curiosity" = Some (VObj shades)
      ∧ dom shades = {[ "lightest"; "light"; "dirt"; "magenta"; "red" ]}
      ∧ size shades = 5
      ∧ keys <$> (load typography_only ≫= get "theme")
        = Some {[ "colors"; "minWidth" ]}.
Proof.
  split; [reflexivity|].
  apply (single_palette_five_shades typography_only installed_plugin).
  reflexivity.
Defined.

Lemma purge_html_and_posts_md_witness :
  typography_only typography = Some installed_plugin
  ∧ ∃ patterns,
      load typography_only ≫= get "purge" = Some (VArr (VStr <$> patterns))
      ∧ Forall (λ p, has_suffix ".html" p ∨ has_suffix ".md" p) patterns
      ∧ filter (λ p, ends_with ".md" p = true) patterns = ["./_posts/*.md"]
      ∧ ∀ p, p ∈ patterns → has_suffix ".md" p →
          ∃ file, p = "./_posts/" +:+ file ∧ contains "/" file = false.
Proof.
  split; [reflexivity|].
  apply (purge_html_and_posts_md typography_only installed_plugin).
  reflexivity.
Defined.

End ConfigFacts.


(** ** More on loading the configuration *)

Module ConfigRead.
Import JS JSFacts Config ConfigFacts.

(** X1: the module loads exactly when the typography package resolves;
    when the package is missing, loading throws. *)
Theorem load_iff_typography_installed (resolve : resolver) :
  (is_Some (load resolve) ↔ is_Some (resolve typography))
  ∧ (load resolve = None ↔ resolve typography = None).
Proof.
  assert (Hiff : is_Some (load resolve) ↔ is_Some (resolve typography)).
  { split; [|apply load_returns].
    intros Hload. destruct (resolve typography) eqn:Hres; [eauto|].
    rewrite (load_throws resolve Hres) in Hload. by destruct Hload. }
  split; [exact Hiff|]. by rewrite !eq_None_not_Some, Hiff.
Qed.

(** X3: what [require] returns for the typography package shows under
    [plugins] only: in any two installations in which the module loads,
    the exported objects have the same value at every own property other
    than [plugins]. *)
Theorem tokens_independent_of_plugin (r1 r2 : resolver) :
  is_Some (r1 typography) → is_Some (r2 typography) →
  ∃ m1 m2,
    load r1 = Some (VObj m1) ∧ load r2 = Some (VObj m2)
    ∧ delete "plugins" m1 = delete "plugins" m2
    ∧ dom m1 = dom m2.
Proof.
  intros [p1 H1] [p2 H2].
  rewrite (load_resolved r1 p1 H1), (load_resolved r2 p2 H2).
  exists_loaded p1 (@nil string). exists_loaded p2 (@nil string).
  split; [vm_compute; reflexivity|]. split; [vm_compute; reflexivity|].
  split; vm_compute; reflexivity.
Qed.

Lemma tokens_independent_of_plugin_witness :
  is_Some (typography_only typography)
  ∧ is_Some ((λ _ : string, Some (VForeign "another-plugin")) typography)
  ∧ ∃ m1 m2,
      load typography_only = Some (VObj m1)
      ∧ load (λ _, Some (VForeign "another-plugin")) = Some (VObj m2)
      ∧ delete "plugins" m1 = delete "plugins" m2
      ∧ dom m1 = dom m2.
Proof.
  assert (H1 : is_Some (typography_only typography))
    by (exists installed_plugin; reflexivity).
  assert (H2 : is_Some ((λ _ : string, Some (VForeign "another-plugin"))
                          typography))
    by (exists (VForeign "another-plugin"); reflexivity).
  split; [exact H1|]. split; [exact H2|].
  apply (tokens_independent_of_plugin typography_only
           (λ _, Some (VForeign "another-plugin")) H1 H2).
Defined.

End ConfigRead.

(** ** The code of the posts *)

Module PostsFacts.
Import Posts.
Local Open Scope list_scope.




End PostsFacts.


(** ** Loading in the heap *)

Module HeapFacts.
Import JS JSFacts Config ConfigFacts Heap.
Local Open Scope nat_scope.

Lemma eval_arr (resolve : resolver) (items : list expr) :
  eval resolve (EArr items) = VArr <$> eval_items resolve items.
Proof.
  simpl. f_equal. induction items as [|e es IH]; simpl; [reflexivity|].
  destruct (eval resolve e); [by rewrite IH|reflexivity].
Qed.

Lemma eval_obj (resolve : resolver) (ps : list (string * expr)) :
  eval resolve (EObj ps) = VObj <$> eval_props resolve ps ∅.
Proof.
  simpl. f_equal. generalize (∅ : gmap string value).
  induction ps as [|[k e] ps IH]; intros acc; simpl; [reflexivity|].
  destruct (eval resolve e); [apply IH|reflexivity].
Qed.

(** *** The heap only grows *)

Lemma alloc_spec (c : cell) (h h' : heap) (a : addr) :
  alloc c h = (a, h') → h !! a = None ∧ h' = <[a := c]> h.
Proof.
  unfold alloc. intros [= <- <-]. split; [|reflexivity].
  apply not_elem_of_dom, is_fresh.
Qed.

Lemma alloc_subseteq (c : cell) (h h' : heap) (a : addr) :
  alloc c h = (a, h') → h ⊆ h'.
Proof. intros [Hnew ->]%alloc_spec. by apply insert_subseteq. Qed.

Section Mono.
Variable resolve : resolver.

Definition grows (e : expr) : Prop :=
  ∀ h v h', heval resolve e h = Some (v, h') → h ⊆ h'.

Lemma heval_items_mono (es : list expr) :
  Forall grows es →
  ∀ h vs h', heval_items (heval resolve) es h = Some (vs, h') → h ⊆ h'.
Proof.
  induction 1 as [|e es He _ IH]; intros h vs h' Hgo; simpl in Hgo.
  - by injection Hgo as _ <-.
  - destruct (heval resolve e h) as [[v h1]|] eqn:Hv; [|done].
    destruct (heval_items (heval resolve) es h1) as [[vs' h2]|] eqn:Hvs;
      [|done].
    injection Hgo as _ <-. etrans; [by eapply He|by eapply IH].
Qed.

Lemma heval_props_mono (ps : list (string * expr)) :
  Forall (λ kv, grows kv.2) ps →
  ∀ acc h props h',
    heval_props (heval resolve) ps acc h = Some (props, h') → h ⊆ h'.
Proof.
  induction 1 as [|[k e] ps He _ IH]; intros acc h props h' Hgo;
    simpl in Hgo.
  - by injection Hgo as _ <-.
  - destruct (heval resolve e h) as [[v h1]|] eqn:Hv; [|done].
    etrans; [by eapply He|by eapply IH].
Qed.

(** Evaluating an expression changes no object that exists. *)
Lemma heval_mono (e : expr) : grows e.
Proof.
  induction e as [b|s|items IH|props IH|name] using expr_nested_ind;
    intros h v h' Hv; simpl in Hv.
  - by injection Hv as _ <-.
  - by injection Hv as _ <-.
  - destruct (heval_items (heval resolve) items h) as [[vs h1]|] eqn:Hvs;
      [|done].
    injection Hv as _ <-.
    etrans; [by eapply heval_items_mono|].
    by apply (alloc_subseteq (CArr vs) h1 _ (fresh (dom h1))).
  - destruct (heval_props (heval resolve) props ∅ h) as [[ps h1]|] eqn:Hps;
      [|done].
    injection Hv as _ <-.
    etrans; [by eapply heval_props_mono|].
    by apply (alloc_subseteq (CObj ps) h1 _ (fresh (dom h1))).
  - destruct (resolve name); [|done]. by injection Hv as _ <-.
Qed.

End Mono.

(** *** Reading back what was built *)

Lemma omap_id_fmap_Some {A : Type} (m : gmap string A) :
  omap id (Some <$> m) = m.
Proof.
  apply map_eq. intros k. rewrite lookup_omap, lookup_fmap.
  by destruct (m !! k).
Qed.

(** More depth allowed reads the same value. *)
Lemma reify_fuel (g : heap) (n : nat) :
  ∀ n' v x, n ≤ n' → reify n g v = Some x → reify n' g v = Some x.
Proof.
  induction n as [|n IH]; intros n' v x Hle Hx.
  - destruct v, n'; done.
  - destruct v as [b|s|a|y]; try (destruct n'; done).
    destruct n' as [|n']; [lia|]. simpl in *.
    destruct (g !! a) as [[props|items]|]; [| |done].
    + case_decide as Hall; [|done]. injection Hx as <-.
      assert (reify n' g <$> props = reify n g <$> props) as ->.
      { apply map_eq. intros k. rewrite !lookup_fmap.
        destruct (props !! k) as [hv|] eqn:Hk; [|reflexivity]. simpl.
        destruct (Hall k (reify n g hv)) as [y Hy];
          [by rewrite lookup_fmap, Hk|].
        rewrite Hy. f_equal. apply IH; [lia|exact Hy]. }
      by rewrite decide_True.
    + apply fmap_Some in Hx as (xs & Hxs & ->).
      apply fmap_Some. exists xs. split; [|reflexivity].
      apply mapM_Some. apply mapM_Some in Hxs.
      eapply Forall2_impl; [exact Hxs|]. intros hv y Hy. simpl in *.
      apply IH; [lia|exact Hy].
Qed.

Lemma depth_item (items : list expr) (e : expr) :
  e ∈ items → depth e ≤ foldr (λ e' d, Nat.max (depth e') d) 0 items.
Proof.
  induction items as [|e' es IH]; [by intros ?%elem_of_nil|].
  intros [->|He]%elem_of_cons; simpl; [lia|]. specialize (IH He). lia.
Qed.

Lemma depth_prop (ps : list (string * expr)) (kv : string * expr) :
  kv ∈ ps →
  depth kv.2 ≤ foldr (λ (kv' : string * expr) d, Nat.max (depth kv'.2) d) 0 ps.
Proof.
  induction ps as [|kv' ps IH]; [by intros ?%elem_of_nil|].
  intros [->|He]%elem_of_cons; simpl; [lia|]. specialize (IH He). lia.
Qed.

(** [g] still holds, as they were made, the objects that [h'] has and
    [h] has not. *)
Definition keeps_new (h h' g : heap) : Prop :=
  ∀ a c, h !! a = None → h' !! a = Some c → g !! a = Some c.

Lemma keeps_new_inner (h0 h h1 h' g : heap) :
  h0 ⊆ h → h1 ⊆ h' → keeps_new h0 h' g → keeps_new h h1 g.
Proof.
  intros H0 H1 Hg a c Ha Hc. apply Hg.
  - destruct (h0 !! a) as [c0|] eqn:Ha0; [|reflexivity].
    by rewrite (lookup_weaken _ _ _ _ Ha0 H0) in Ha.
  - by apply (lookup_weaken _ _ _ _ Hc H1).
Qed.

Section ReadBack.
Variable resolve : resolver.

Definition reads_back (e : expr) : Prop :=
  ∀ h v h', heval resolve e h = Some (v, h') →
    ∃ x, eval resolve e = Some x
      ∧ ∀ g, keeps_new h h' g → reify (depth e) g v = Some x.

Lemma heval_items_reads_back (es : list expr) :
  Forall reads_back es →
  ∀ h vs h' n g,
    heval_items (heval resolve) es h = Some (vs, h') →
    (∀ e, e ∈ es → depth e ≤ n) → keeps_new h h' g →
    ∃ xs, eval_items resolve es = Some xs ∧ mapM (reify n g) vs = Some xs.
Proof.
  induction 1 as [|e es He Hes IH]; intros h vs h' n g Hgo Hn Hg;
    simpl in Hgo.
  - injection Hgo as <- <-. by exists [].
  - destruct (heval resolve e h) as [[v h1]|] eqn:Hv; [|done].
    destruct (heval_items (heval resolve) es h1) as [[vs' h2]|] eqn:Hvs;
      [|done].
    injection Hgo as <- <-.
    assert (Hgrow1 : h ⊆ h1) by (by eapply heval_mono).
    assert (Hgrow2 : h1 ⊆ h2).
    { eapply heval_items_mono; [|exact Hvs].
      apply Forall_forall. intros ? _. apply heval_mono. }
    destruct (He _ _ _ Hv) as (x & Hx & Hread).
    destruct (IH h1 vs' h2 n g Hvs) as (xs & Hxs & Hreads).
    { intros e' He'. apply Hn, elem_of_cons. by right. }
    { by apply (keeps_new_inner h h1 h2 h2 g). }
    exists (x :: xs). simpl. rewrite Hx, Hxs. split; [reflexivity|].
    rewrite (reify_fuel g (depth e) n v x); simpl.
    + by rewrite Hreads.
    + apply Hn, elem_of_cons. by left.
    + apply Hread. by apply (keeps_new_inner h h h1 h2 g).
Qed.

Lemma heval_props_reads_back (ps : list (string * expr)) :
  Forall (λ kv, reads_back kv.2) ps →
  ∀ acc accv h props h' n g,
    heval_props (heval resolve) ps acc h = Some (props, h') →
    (∀ kv, kv ∈ ps → depth kv.2 ≤ n) → keeps_new h h' g →
    reify n g <$> acc = Some <$> accv →
    ∃ xs, eval_props resolve ps accv = Some xs
      ∧ reify n g <$> props = Some <$> xs.
Proof.
  induction 1 as [|[k e] ps He Hps IH]; intros acc accv h props h' n g
    Hgo Hn Hg Hacc; simpl in Hgo.
  - injection Hgo as <- <-. by exists accv.
  - destruct (heval resolve e h) as [[v h1]|] eqn:Hv; [|done].
    assert (Hgrow1 : h ⊆ h1) by (by eapply heval_mono).
    assert (Hgrow2 : h1 ⊆ h').
    { eapply heval_props_mono; [|exact Hgo].
      apply Forall_forall. intros ? _. apply heval_mono. }
    destruct (He _ _ _ Hv) as (x & Hx & Hread). simpl in Hx, Hread.
    simpl. rewrite Hx.
    apply (IH (<[k := v]> acc) (<[k := x]> accv) h1 props h' n g Hgo).
    + intros kv Hkv. apply Hn, elem_of_cons. by right.
    + by apply (keeps_new_inner h h1 h' h' g).
    + rewrite !fmap_insert, Hacc. f_equal.
      apply (reify_fuel g (depth e)).
      * apply (Hn (k, e)), elem_of_cons. by left.
      * apply Hread. by apply (keeps_new_inner h h h1 h' g).
Qed.

Lemma keeps_new_alloc (h h1 g : heap) (a : addr) (c : cell) :
  h ⊆ h1 → h1 !! a = None → keeps_new h (<[a := c]> h1) g →
  g !! a = Some c ∧ keeps_new h h1 g.
Proof.
  intros Hgrow Hnew Hg. split.
  - apply Hg; [|by rewrite lookup_insert_eq].
    destruct (h !! a) as [c0|] eqn:Ha; [|reflexivity].
    by rewrite (lookup_weaken _ _ _ _ Ha Hgrow) in Hnew.
  - apply (keeps_new_inner h h h1 (<[a := c]> h1) g); [done| |done].
    by apply insert_subseteq.
Qed.

(** What evaluation in the heap builds reads back as the value of the
    expression, in every heap that still holds the objects as built. *)
Lemma heval_reads_back (e : expr) : reads_back e.
Proof.
  induction e as [b|s|items IH|props IH|name] using expr_nested_ind;
    intros h v h' Hv; simpl in Hv.
  - injection Hv as <- <-. by exists (VBool b).
  - injection Hv as <- <-. by exists (VStr s).
  - destruct (heval_items (heval resolve) items h) as [[vs h1]|] eqn:Hvs;
      [|done].
    injection Hv as <- <-.
    assert (Hgrow : h ⊆ h1).
    { eapply heval_items_mono; [|exact Hvs].
      apply Forall_forall. intros ? _. apply heval_mono. }
    assert (Hnew : h1 !! fresh (dom h1) = None)
      by apply not_elem_of_dom, is_fresh.
    set (n := foldr (λ e' d, Nat.max (depth e') d) 0 items).
    assert (Hn : ∀ e, e ∈ items → depth e ≤ n) by apply depth_item.
    destruct (heval_items_reads_back items IH h vs h1 n h1 Hvs Hn)
      as (xs & Hxs & _); [by intros ????|].
    exists (VArr xs). split; [by rewrite eval_arr, Hxs|].
    intros g Hg. apply keeps_new_alloc in Hg as [Hga Hg]; [|done..].
    destruct (heval_items_reads_back items IH h vs h1 n g Hvs Hn Hg)
      as (xs' & Hxs' & Hread).
    rewrite Hxs in Hxs'. injection Hxs' as <-.
    change (depth (EArr items)) with (S n). cbn [reify].
    by rewrite Hga, Hread.
  - destruct (heval_props (heval resolve) props ∅ h) as [[ps h1]|] eqn:Hps;
      [|done].
    injection Hv as <- <-.
    assert (Hgrow : h ⊆ h1).
    { eapply heval_props_mono; [|exact Hps].
      apply Forall_forall. intros ? _. apply heval_mono. }
    assert (Hnew : h1 !! fresh (dom h1) = None)
      by apply not_elem_of_dom, is_fresh.
    set (n := foldr (λ (kv : string * expr) d, Nat.max (depth kv.2) d) 0 props).
    assert (Hn : ∀ kv, kv ∈ props → depth kv.2 ≤ n) by apply depth_prop.
    destruct (heval_props_reads_back props IH ∅ ∅ h ps h1 n h1 Hps Hn)
      as (xs & Hxs & _); [by intros ????|by rewrite !fmap_empty|].
    exists (VObj xs). split; [by rewrite eval_obj, Hxs|].
    intros g Hg. apply keeps_new_alloc in Hg as [Hga Hg]; [|done..].
    destruct (heval_props_reads_back props IH ∅ ∅ h ps h1 n g Hps Hn Hg)
      as (xs' & Hxs' & Hread); [by rewrite !fmap_empty|].
    rewrite Hxs in Hxs'. injection Hxs' as <-.
    change (depth (EObj props)) with (S n). cbn [reify].
    rewrite Hga. cbn zeta. rewrite Hread, omap_id_fmap_Some.
    rewrite decide_True; [reflexivity|].
    intros k o. rewrite lookup_fmap. intros Hk.
    destruct (xs !! k); simplify_eq/=; eauto.
  - destruct (resolve name) as [x|] eqn:Hx; [|done].
    injection Hv as <- <-. exists x. by split.
Qed.

(** A literal evaluates to a reference to a new object. *)
Lemma heval_obj_new (ps : list (string * expr)) (h h' : heap) (v : hvalue) :
  heval resolve (EObj ps) h = Some (v, h') →
  ∃ a, v = HRef a ∧ h !! a = None ∧ is_Some (h' !! a).
Proof.
  simpl. intros Hv.
  destruct (heval_props (heval resolve) ps ∅ h) as [[props h1]|] eqn:Hps;
    [|done].
  assert (Hgrow : h ⊆ h1).
  { eapply heval_props_mono; [|exact Hps].
    apply Forall_forall. intros ? _. apply heval_mono. }
  injection Hv as <- <-.
  assert (Hnew : h1 !! fresh (dom h1) = None)
    by apply not_elem_of_dom, is_fresh.
  exists (fresh (dom h1)). split; [reflexivity|].
  split; [|by rewrite lookup_insert_eq].
  destruct (h !! fresh (dom h1)) as [c0|] eqn:Ha; [|reflexivity].
  by rewrite (lookup_weaken _ _ _ _ Ha Hgrow) in Hnew.
Qed.

(** *** Evaluation in the heap returns when the packages resolve *)

Definition returns (e : expr) : Prop :=
  (∀ name, name ∈ requires e → is_Some (resolve name)) →
  ∀ h, is_Some (heval resolve e h).

Lemma heval_items_total (es : list expr) :
  Forall returns es →
  (∀ name, name ∈ concat (map requires es) → is_Some (resolve name)) →
  ∀ h, is_Some (heval_items (heval resolve) es h).
Proof.
  induction 1 as [|e es He _ IH]; intros Hres h; simpl; [eauto|].
  destruct (He (λ n Hn, Hres n (proj2 (elem_of_app _ _ _) (or_introl Hn))) h)
    as [[v h1] ->].
  destruct (IH (λ n Hn, Hres n (proj2 (elem_of_app _ _ _) (or_intror Hn))) h1)
    as [[vs h2] ->].
  eauto.
Qed.

Lemma heval_props_total (ps : list (string * expr)) :
  Forall (λ kv, returns kv.2) ps →
  (∀ name, name ∈ concat (map (λ kv : string * expr, requires kv.2) ps) →
     is_Some (resolve name)) →
  ∀ acc h, is_Some (heval_props (heval resolve) ps acc h).
Proof.
  induction 1 as [|[k e] ps He _ IH]; intros Hres acc h; simpl in *;
    [eauto|].
  destruct (He (λ n Hn, Hres n (proj2 (elem_of_app _ _ _) (or_introl Hn))) h)
    as [[v h1] ->].
  apply IH. intros n Hn. apply Hres, elem_of_app. by right.
Qed.

Lemma heval_total (e : expr) : returns e.
Proof.
  induction e as [b|s|items IH|props IH|name] using expr_nested_ind;
    intros Hres h; simpl.
  - eauto.
  - eauto.
  - destruct (heval_items_total items IH Hres h) as [[vs h1] ->]. eauto.
  - destruct (heval_props_total props IH Hres ∅ h) as [[ps h1] ->]. eauto.
  - destruct (Hres name) as [x ->]; [|eauto].
    apply list_elem_of_singleton. reflexivity.
Qed.

End ReadBack.

(** *** One evaluation of the module *)

(** What one evaluation does to the heap, and what it hands out. *)
Lemma hload_spec (resolve : resolver) (h : heap) :
  is_Some (resolve typography) →
  ∃ a h' cfg,
    hload resolve h = Some (HRef a, h')
    ∧ h ⊆ h' ∧ h !! a = None ∧ is_Some (h' !! a)
    ∧ load resolve = Some cfg
    ∧ ∀ g, h' ⊆ g → reify (depth config_literal) g (HRef a) = Some cfg.
Proof.
  intros Hres. unfold hload, new_module, alloc.
  set (e0 := fresh (dom h)). set (hA := <[e0 := CObj ∅]> h).
  set (m := fresh (dom hA)).
  set (h0 := <[m := CObj {[ "exports" := HRef e0 ]}]> hA).
  assert (HhA : h ⊆ hA) by apply insert_subseteq, not_elem_of_dom, is_fresh.
  assert (Hh0 : hA ⊆ h0) by apply insert_subseteq, not_elem_of_dom, is_fresh.
  assert (Hm0 : h0 !! m = Some (CObj {[ "exports" := HRef e0 ]}))
    by apply lookup_insert_eq.
  unfold tailwind_config_js. cbn [hrun hexec].
  destruct (heval_total resolve config_literal) with (h := h0)
    as [[v h1] Hv].
  { intros name. rewrite requires_config.
    by intros ->%list_elem_of_singleton. }
  rewrite Hv.
  pose proof (heval_mono resolve config_literal h0 v h1 Hv) as Hh1.
  destruct (heval_reads_back resolve config_literal h0 v h1 Hv)
    as (cfg & Hcfg & Hread).
  destruct (heval_obj_new resolve _ h0 h1 v Hv) as (a & -> & Hnew & Hbuilt).
  assert (Hm1 : h1 !! m = Some (CObj {[ "exports" := HRef e0 ]}))
    by apply (lookup_weaken _ _ _ _ Hm0 Hh1).
  assert (Ham : a ≠ m) by (intros ->; by rewrite Hm0 in Hnew).
  unfold set_prop. rewrite Hm1.
  set (h2 := <[m := CObj (<["exports" := HRef a]> {[ "exports" := HRef e0 ]})]> h1).
  assert (Hm2 : h2 !! m
                = Some (CObj (<["exports" := HRef a]> {[ "exports" := HRef e0 ]})))
    by apply lookup_insert_eq.
  unfold get_prop. rewrite Hm2, lookup_insert_eq.
  assert (Hold : ∀ b c, h0 !! b = None → h1 !! b = Some c → h2 !! b = Some c).
  { intros b c Hb Hc. unfold h2. rewrite lookup_insert_ne; [exact Hc|].
    intros <-. by rewrite Hm0 in Hb. }
  exists a, h2, cfg. split; [reflexivity|]. split; [|split; [|split; [|split]]].
  - apply map_subseteq_spec. intros b c Hb.
    assert (Hb0 : h0 !! b = Some c).
    { apply (lookup_weaken _ _ _ _ Hb). by etrans. }
    unfold h2. rewrite lookup_insert_ne.
    + apply (lookup_weaken _ _ _ _ Hb0 Hh1).
    + intros <-. assert (Hfresh : hA !! m = None)
        by apply not_elem_of_dom, is_fresh.
      by rewrite (lookup_weaken _ _ _ _ Hb HhA) in Hfresh.
  - destruct (h !! a) as [c|] eqn:Ha; [|reflexivity].
    assert (h0 !! a = Some c) as Hc.
    { apply (lookup_weaken _ _ _ _ Ha). by etrans. }
    by rewrite Hc in Hnew.
  - destruct Hbuilt as [c Hc]. exists c. by apply Hold.
  - by rewrite load_eval.
  - intros g Hg. apply Hread. intros b c Hb Hc.
    apply (lookup_weaken _ _ _ _ (Hold b c Hb Hc) Hg).
Qed.

(** C8: the configuration is never mutated.  One evaluation of the module
    changes no object that was there before it: the heap only grows.
    What it hands out reads as the value of the literal, and goes on
    reading so in every later heap that has only grown.  A second
    evaluation builds another object, which reads as the same value, and
    leaves the first as it was. *)
Theorem load_never_mutates (resolve : resolver) (plugin : value) (h : heap) :
  resolve typography = Some plugin →
  ∃ v1 h1 v2 h2 cfg,
    hload resolve h = Some (v1, h1)
    ∧ hload resolve h1 = Some (v2, h2)
    ∧ h ⊆ h1 ∧ h1 ⊆ h2
    ∧ load resolve = Some cfg
    ∧ (∀ g, h1 ⊆ g → reify (depth config_literal) g v1 = Some cfg)
    ∧ reify (depth config_literal) h2 v1 = Some cfg
    ∧ reify (depth config_literal) h2 v2 = Some cfg
    ∧ v1 ≠ v2.
Proof.
  intros Hplugin.
  assert (Hres : is_Some (resolve typography)) by eauto.
  destruct (hload_spec resolve h Hres)
    as (a1 & h1 & cfg & Hload1 & Hgrow1 & Hnew1 & Hbuilt1 & Hcfg & Hread1).
  destruct (hload_spec resolve h1 Hres)
    as (a2 & h2 & cfg' & Hload2 & Hgrow2 & Hnew2 & Hbuilt2 & Hcfg' & Hread2).
  rewrite Hcfg in Hcfg'. injection Hcfg' as <-.
  exists (HRef a1), h1, (HRef a2), h2, cfg.
  repeat split; try done.
  - by apply Hread1.
  - by apply Hread2.
  - intros [= ->]. destruct Hbuilt1 as [c Hc]. by rewrite Hnew2 in Hc.
Qed.

Lemma load_never_mutates_witness :
  typography_only typography = Some installed_plugin
  ∧ ∃ v1 h1 v2 h2 cfg,
      hload typography_only ∅ = Some (v1, h1)
      ∧ hload typography_only h1 = Some (v2, h2)
      ∧ (∅ : heap) ⊆ h1 ∧ h1 ⊆ h2
      ∧ load typography_only = Some cfg
      ∧ (∀ g, h1 ⊆ g → reify (depth config_literal) g v1 = Some cfg)
      ∧ reify (depth config_literal) h2 v1 = Some cfg
      ∧ reify (depth config_literal) h2 v2 = Some cfg
      ∧ v1 ≠ v2.
Proof.
  split; [reflexivity|].
  apply (load_never_mutates typography_only installed_plugin ∅).
  reflexivity.
Defined.

End HeapFacts.
